(** * libMesh / rbOOmit: [transient_rb_evaluation.h]

    A shallow embedding of the header
    [include/systems/transient_rb_evaluation.h]: the class
    [TemporalDiscretization] (whose member functions are all defined inline
    in the header) and the time march of [TransientRBEvaluation::rb_solve]
    (declared in the header, described in the specification). *)

From Stdlib Require Import Arith NArith List Bool Lia.
From Stdlib Require Import PrimFloat.
Import ListNotations.

Set Implicit Arguments.

(** ** Scalar types

    [Real] is libMesh's build-time scalar typedef; its default, [double], is
    an IEEE 754 binary64 number, which is what Rocq's primitive [float] is.
    The comparisons [<=?] and [<?] are the IEEE ones the C++ operators
    [<=] and [<] compute (false whenever an operand is NaN, and
    [-0. <= 0.] true).  A floating literal of the source, such as [0.] or
    [1.], is the binary64 number nearest to it.

    [unsigned int] values are modelled as [N]: the member functions below
    only store and compare them, no arithmetic (hence no wrap-around) takes
    place on them. *)

Definition Real : Set := float.
Definition Number : Set := float.
Bind Scope float_scope with Real Number.
Definition unsigned_int : Set := N.
Bind Scope N_scope with unsigned_int.

Set Warnings "-inexact-float".
Open Scope float_scope.

(** * Part I: [class TemporalDiscretization] *)

(** The private data members of [class TemporalDiscretization]. *)
Record TemporalDiscretization : Set := Build {
  _delta_t : Real;
  _euler_theta : Real;
  _current_time_step : unsigned_int;
  _n_time_steps : unsigned_int
}.

(** What a call of a [void] member function does: it returns, leaving the
    object in a new state, or it stops the program at a failed assertion. *)
Inductive outcome (A : Type) : Type :=
| Returned (a : A)
| AssertionFailure.
Arguments AssertionFailure {A}.

(** Modelled from the spec: the macro [libmesh_assert] is used by the header
    but defined elsewhere in libMesh.  The specification describes a failed
    assertion as a fatal precondition failure, not a recoverable error: when
    the asserted condition is false nothing of the rest of the function runs
    and no state is handed back. *)
Definition libmesh_assert {A : Type} (asserted : bool) (rest : outcome A)
  : outcome A :=
  if asserted then rest else AssertionFailure.

(** The constructor: [_delta_t(0.), _euler_theta(0.),
    _current_time_step(0), _n_time_steps(0)]. *)
Definition TemporalDiscretization_ctor : TemporalDiscretization :=
  {| _delta_t := 0;
     _euler_theta := 0;
     _current_time_step := 0%N;
     _n_time_steps := 0%N |}.

Definition get_delta_t (td : TemporalDiscretization) : Real := _delta_t td.

Definition set_delta_t (delta_t_in : Real) (td : TemporalDiscretization)
  : outcome TemporalDiscretization :=
  Returned {| _delta_t := delta_t_in;
              _euler_theta := _euler_theta td;
              _current_time_step := _current_time_step td;
              _n_time_steps := _n_time_steps td |}.

Definition get_euler_theta (td : TemporalDiscretization) : Real :=
  _euler_theta td.

Definition set_euler_theta (euler_theta_in : Real)
  (td : TemporalDiscretization) : outcome TemporalDiscretization :=
  libmesh_assert ((0 <=? euler_theta_in) && (euler_theta_in <=? 1))
    (Returned {| _delta_t := _delta_t td;
                 _euler_theta := euler_theta_in;
                 _current_time_step := _current_time_step td;
                 _n_time_steps := _n_time_steps td |}).

Definition get_time_step (td : TemporalDiscretization) : unsigned_int :=
  _current_time_step td.

Definition get_n_time_steps (td : TemporalDiscretization) : unsigned_int :=
  _n_time_steps td.

Definition set_time_step (k : unsigned_int) (td : TemporalDiscretization)
  : outcome TemporalDiscretization :=
  libmesh_assert (k <=? get_n_time_steps td)%N
    (Returned {| _delta_t := _delta_t td;
                 _euler_theta := _euler_theta td;
                 _current_time_step := k;
                 _n_time_steps := _n_time_steps td |}).

Definition set_n_time_steps (K : unsigned_int) (td : TemporalDiscretization)
  : outcome TemporalDiscretization :=
  Returned {| _delta_t := _delta_t td;
              _euler_theta := _euler_theta td;
              _current_time_step := _current_time_step td;
              _n_time_steps := K |}.

(** The four setters as one interface, so that statements about every
    setter can quantify over the call made. *)
Inductive setter_call : Set :=
| Set_delta_t (delta_t_in : Real)
| Set_euler_theta (euler_theta_in : Real)
| Set_time_step (k : unsigned_int)
| Set_n_time_steps (K : unsigned_int).

Definition call_setter (c : setter_call) (td : TemporalDiscretization)
  : outcome TemporalDiscretization :=
  match c with
  | Set_delta_t d => set_delta_t d td
  | Set_euler_theta t => set_euler_theta t td
  | Set_time_step k => set_time_step k td
  | Set_n_time_steps K => set_n_time_steps K td
  end.

(** A sequence of setter calls on one object; the first failed assertion
    ends the program. *)
Fixpoint run_setters (cs : list setter_call) (td : TemporalDiscretization)
  : outcome TemporalDiscretization :=
  match cs with
  | [] => Returned td
  | c :: cs' =>
      match call_setter c td with
      | Returned td' => run_setters cs' td'
      | AssertionFailure => AssertionFailure
      end
  end.

(** The invariant the specification gives for the object:
    [0 <= current_time_step <= n_time_steps] and [0 <= euler_theta <= 1]
    (the comparisons on [euler_theta] are the floating-point ones). *)
Definition invariant (td : TemporalDiscretization) : bool :=
  (0 <=? get_time_step td)%N
  && (get_time_step td <=? get_n_time_steps td)%N
  && (0 <=? get_euler_theta td)
  && (get_euler_theta td <=? 1).

(** The calls after which the step index is still covered by the step
    count: every call but a [set_n_time_steps(K)] with [K] below the current
    step. *)
Definition keeps_step_in_range (c : setter_call)
  (td : TemporalDiscretization) : bool :=
  match c with
  | Set_n_time_steps K => (get_time_step td <=? K)%N
  | _ => true
  end.

(** The members a call of each setter is expected to leave alone. *)
Definition other_members_unchanged (c : setter_call)
  (td td' : TemporalDiscretization) : Prop :=
  match c with
  | Set_delta_t _ =>
      _euler_theta td' = _euler_theta td
      /\ _current_time_step td' = _current_time_step td
      /\ _n_time_steps td' = _n_time_steps td
  | Set_euler_theta _ =>
      _delta_t td' = _delta_t td
      /\ _current_time_step td' = _current_time_step td
      /\ _n_time_steps td' = _n_time_steps td
  | Set_time_step _ =>
      _delta_t td' = _delta_t td
      /\ _euler_theta td' = _euler_theta td
      /\ _n_time_steps td' = _n_time_steps td
  | Set_n_time_steps _ =>
      _delta_t td' = _delta_t td
      /\ _euler_theta td' = _euler_theta td
      /\ _current_time_step td' = _current_time_step td
  end.

(** ** How the setters relate to the members *)

Inductive member : Set :=
| Delta_t
| Euler_theta
| Current_time_step
| N_time_steps.

Definition member_eqb (m1 m2 : member) : bool :=
  match m1, m2 with
  | Delta_t, Delta_t => true
  | Euler_theta, Euler_theta => true
  | Current_time_step, Current_time_step => true
  | N_time_steps, N_time_steps => true
  | _, _ => false
  end.

(** The member a setter assigns to. *)
Definition written_member (c : setter_call) : member :=
  match c with
  | Set_delta_t _ => Delta_t
  | Set_euler_theta _ => Euler_theta
  | Set_time_step _ => Current_time_step
  | Set_n_time_steps _ => N_time_steps
  end.

(** The member a setter's assertion reads: only that of [set_time_step]
    reads the object, through [get_n_time_steps()]. *)
Definition assertion_reads (c : setter_call) (m : member) : bool :=
  match c, m with
  | Set_time_step _, N_time_steps => true
  | _, _ => false
  end.

(** Two calls are independent when they assign to different members and
    neither assigns to a member the other's assertion reads. *)
Definition independent (c1 c2 : setter_call) : bool :=
  negb (member_eqb (written_member c1) (written_member c2))
  && negb (assertion_reads c1 (written_member c2))
  && negb (assertion_reads c2 (written_member c1)).

(** The getter of the member a call assigns to gives back the call's
    argument. *)
Definition getter_returns_argument (c : setter_call)
  (td : TemporalDiscretization) : Prop :=
  match c with
  | Set_delta_t d => get_delta_t td = d
  | Set_euler_theta t => get_euler_theta td = t
  | Set_time_step k => get_time_step td = k
  | Set_n_time_steps K => get_n_time_steps td = K
  end.

(** The part of the invariant on [euler_theta] alone. *)
Definition theta_in_range (td : TemporalDiscretization) : bool :=
  (0 <=? get_euler_theta td) && (get_euler_theta td <=? 1).

(** Five calls that bring a fresh object to the state [td]: the step count
    is first raised to the step wanted, so that [set_time_step] is
    accepted, and set to its final value last. *)
Definition setters_reaching (td : TemporalDiscretization)
  : list setter_call :=
  [Set_delta_t (get_delta_t td);
   Set_euler_theta (get_euler_theta td);
   Set_n_time_steps (get_time_step td);
   Set_time_step (get_time_step td);
   Set_n_time_steps (get_n_time_steps td)].

(** * Part II: [class TransientRBEvaluation] *)

(** ** Dense vectors and matrices ([DenseVector<Number>],
    [DenseMatrix<Number>]), a matrix being the list of its rows *)

Definition DenseVector : Set := list Number.
Definition DenseMatrix : Set := list (list Number).

(** A [NumericVector<Number>*]: a truth-space vector, or the null pointer. *)
Definition NumericVector_ptr : Set := option (list Number).

Fixpoint zip_with {A B C : Type} (f : A -> B -> C) (l : list A) (m : list B)
  : list C :=
  match l, m with
  | a :: l', b :: m' => f a b :: zip_with f l' m'
  | _, _ => []
  end.

Definition vec_add (u v : DenseVector) : DenseVector := zip_with add u v.
Definition vec_scale (c : Number) (u : DenseVector) : DenseVector :=
  map (mul c) u.
Definition dot (u v : DenseVector) : Number :=
  fold_left add (zip_with mul u v) 0.
Definition mat_add (A B : DenseMatrix) : DenseMatrix := zip_with vec_add A B.
Definition mat_sub (A B : DenseMatrix) : DenseMatrix :=
  zip_with (zip_with sub) A B.
Definition mat_scale (c : Number) (A : DenseMatrix) : DenseMatrix :=
  map (vec_scale c) A.
Definition mat_div (A : DenseMatrix) (c : Number) : DenseMatrix :=
  map (map (fun a => a / c)) A.
Definition mat_vec (A : DenseMatrix) (u : DenseVector) : DenseVector :=
  map (fun row => dot row u) A.
Definition zero_vector (n : nat) : DenseVector := repeat 0 n.
Definition zero_matrix (n : nat) : DenseMatrix := repeat (zero_vector n) n.

(** The leading [n] by [n] block of a matrix and the first [n] entries of a
    vector: the part of an operator allocated for [N_max] basis functions
    that a solve with [n] of them uses. *)
Definition leading_block (n : nat) (A : DenseMatrix) : DenseMatrix :=
  map (firstn n) (firstn n A).
Definition leading_part (n : nat) (u : DenseVector) : DenseVector :=
  firstn n u.

(** The sum over the affine terms [q = q0, q0 + 1, ...] of [theta q] times
    the [q]-th component. *)
Fixpoint theta_weighted_matrix (n : nat) (theta : nat -> Number) (q0 : nat)
  (components : list DenseMatrix) : DenseMatrix :=
  match components with
  | [] => zero_matrix n
  | A :: rest =>
      mat_add (mat_scale (theta q0) (leading_block n A))
              (theta_weighted_matrix n theta (S q0) rest)
  end.

Fixpoint theta_weighted_vector (n : nat) (theta : nat -> Number) (q0 : nat)
  (components : list DenseVector) : DenseVector :=
  match components with
  | [] => zero_vector n
  | F :: rest =>
      vec_add (vec_scale (theta q0) (leading_part n F))
              (theta_weighted_vector n theta (S q0) rest)
  end.

Fixpoint last_entry {A : Type} (l : list A) : option A :=
  match l with
  | [] => None
  | [a] => Some a
  | _ :: l' => last_entry l'
  end.

(** ** The data members *)

(** Modelled from the spec: the base class [RBEvaluation] is declared in
    [rb_evaluation.h], which the header includes but which is not part of
    the sources at hand.  Section 6 of the specification names what the
    parent supplies to the transient solve: the affine stiffness-operator
    components [RB_A_q_vector], the forcing components, and the current
    [RB_solution]. *)
Record RBEvaluation : Set := {
  RB_A_q_vector : list DenseMatrix;
  RB_F_q_vector : list DenseVector;
  RB_solution : DenseVector
}.

(** The public data members of [class TransientRBEvaluation], in the order
    of the header, after the base-class subobject. *)
Record TransientRBEvaluation : Set := {
  Parent : RBEvaluation;
  temporal_discretization : TemporalDiscretization;
  RB_L2_matrix : DenseMatrix;
  RB_M_q_vector : list DenseMatrix;
  RB_outputs_all_k : list (list Number);
  RB_output_error_bounds_all_k : list (list Real);
  old_RB_solution : DenseVector;
  RB_temporal_solution_data : list DenseVector;
  error_bound_all_k : list Real;
  initial_L2_error_all_N : list Real;
  RB_initial_condition_all_N : list DenseVector;
  Fq_Mq_representor_norms : list (list (list Number));
  Mq_Mq_representor_norms : list (list (list Number));
  Aq_Mq_representor_norms : list (list (list (list Number)));
  cached_Fq_term : Number;
  cached_Fq_Aq_vector : DenseVector;
  cached_Aq_Aq_matrix : DenseMatrix;
  cached_Fq_Mq_vector : DenseVector;
  cached_Aq_Mq_matrix : DenseMatrix;
  cached_Mq_Mq_matrix : DenseMatrix;
  M_q_representor : list (list NumericVector_ptr)
}.

(** The six cached residual terms, as [cache_online_residual_terms] writes
    them. *)
Record CachedTerms : Set := {
  Fq_term : Number;
  Fq_Aq_vector : DenseVector;
  Aq_Aq_matrix : DenseMatrix;
  Fq_Mq_vector : DenseVector;
  Aq_Mq_matrix : DenseMatrix;
  Mq_Mq_matrix : DenseMatrix
}.

(** ** What the solve is given from outside

    The collaborators of the transient online solve that the header only
    declares or refers to: the coefficients of the affine expansion at the
    current, fixed parameter; the dense direct solve; the output
    functionals; the error-bound evaluator; and the contraction that fills
    the cached residual terms.  Every statement about the solve below holds
    for each choice of them. *)
Class Collaborators : Type := {
  (** [theta_q(mu)] for the stiffness, mass and forcing terms *)
  theta_q_a : nat -> Number;
  theta_q_m : nat -> Number;
  theta_q_f : nat -> Number;
  (** the dense direct solve of [A x = b]; [None] on a singular system *)
  lu_solve : DenseMatrix -> DenseVector -> option DenseVector;
  (** the outputs of a reduced state *)
  compute_outputs : DenseVector -> list Number;
  (** the state and output error bounds at time level 0, from the initial
      L2 error *)
  initial_error_bounds : Real -> Real * list Real;
  (** the state and output error bounds of the step just taken with [N]
      basis functions, from the evaluation object *)
  error_bound_evaluator : nat -> TransientRBEvaluation -> Real * list Real;
  (** the contraction of the representor norms with [theta_q(mu)] *)
  contract_representor_norms : nat -> TransientRBEvaluation -> CachedTerms
}.

(** How a call of [rb_solve] ends. *)
Inductive solve_outcome (A : Type) : Type :=
| Solved (a : A)
| PreconditionViolation
| NumericalFailure.
Arguments PreconditionViolation {A}.
Arguments NumericalFailure {A}.

(** ** Writes to the evaluation object *)

(** [cache_online_residual_terms] writes the six [cached_*] members. *)
Definition write_cached_terms (c : CachedTerms) (ev : TransientRBEvaluation)
  : TransientRBEvaluation :=
  {| Parent := Parent ev;
     temporal_discretization := temporal_discretization ev;
     RB_L2_matrix := RB_L2_matrix ev;
     RB_M_q_vector := RB_M_q_vector ev;
     RB_outputs_all_k := RB_outputs_all_k ev;
     RB_output_error_bounds_all_k := RB_output_error_bounds_all_k ev;
     old_RB_solution := old_RB_solution ev;
     RB_temporal_solution_data := RB_temporal_solution_data ev;
     error_bound_all_k := error_bound_all_k ev;
     initial_L2_error_all_N := initial_L2_error_all_N ev;
     RB_initial_condition_all_N := RB_initial_condition_all_N ev;
     Fq_Mq_representor_norms := Fq_Mq_representor_norms ev;
     Mq_Mq_representor_norms := Mq_Mq_representor_norms ev;
     Aq_Mq_representor_norms := Aq_Mq_representor_norms ev;
     cached_Fq_term := Fq_term c;
     cached_Fq_Aq_vector := Fq_Aq_vector c;
     cached_Aq_Aq_matrix := Aq_Aq_matrix c;
     cached_Fq_Mq_vector := Fq_Mq_vector c;
     cached_Aq_Mq_matrix := Aq_Mq_matrix c;
     cached_Mq_Mq_matrix := Mq_Mq_matrix c;
     M_q_representor := M_q_representor ev |}.

(** A write of the reduced state [u]: it becomes the parent's [RB_solution]
    and [old_RB_solution], and [history] replaces the stored trajectory. *)
Definition write_solution (u : DenseVector) (history : list DenseVector)
  (ev : TransientRBEvaluation) : TransientRBEvaluation :=
  {| Parent := {| RB_A_q_vector := RB_A_q_vector (Parent ev);
                  RB_F_q_vector := RB_F_q_vector (Parent ev);
                  RB_solution := u |};
     temporal_discretization := temporal_discretization ev;
     RB_L2_matrix := RB_L2_matrix ev;
     RB_M_q_vector := RB_M_q_vector ev;
     RB_outputs_all_k := RB_outputs_all_k ev;
     RB_output_error_bounds_all_k := RB_output_error_bounds_all_k ev;
     old_RB_solution := u;
     RB_temporal_solution_data := history;
     error_bound_all_k := error_bound_all_k ev;
     initial_L2_error_all_N := initial_L2_error_all_N ev;
     RB_initial_condition_all_N := RB_initial_condition_all_N ev;
     Fq_Mq_representor_norms := Fq_Mq_representor_norms ev;
     Mq_Mq_representor_norms := Mq_Mq_representor_norms ev;
     Aq_Mq_representor_norms := Aq_Mq_representor_norms ev;
     cached_Fq_term := cached_Fq_term ev;
     cached_Fq_Aq_vector := cached_Fq_Aq_vector ev;
     cached_Aq_Aq_matrix := cached_Aq_Aq_matrix ev;
     cached_Fq_Mq_vector := cached_Fq_Mq_vector ev;
     cached_Aq_Mq_matrix := cached_Aq_Mq_matrix ev;
     cached_Mq_Mq_matrix := cached_Mq_Mq_matrix ev;
     M_q_representor := M_q_representor ev |}.

(** A write of the three per-time-level histories of outputs, output error
    bounds and state error bounds. *)
Definition write_histories (outputs : list (list Number))
  (output_bounds : list (list Real)) (bounds : list Real)
  (ev : TransientRBEvaluation) : TransientRBEvaluation :=
  {| Parent := Parent ev;
     temporal_discretization := temporal_discretization ev;
     RB_L2_matrix := RB_L2_matrix ev;
     RB_M_q_vector := RB_M_q_vector ev;
     RB_outputs_all_k := outputs;
     RB_output_error_bounds_all_k := output_bounds;
     old_RB_solution := old_RB_solution ev;
     RB_temporal_solution_data := RB_temporal_solution_data ev;
     error_bound_all_k := bounds;
     initial_L2_error_all_N := initial_L2_error_all_N ev;
     RB_initial_condition_all_N := RB_initial_condition_all_N ev;
     Fq_Mq_representor_norms := Fq_Mq_representor_norms ev;
     Mq_Mq_representor_norms := Mq_Mq_representor_norms ev;
     Aq_Mq_representor_norms := Aq_Mq_representor_norms ev;
     cached_Fq_term := cached_Fq_term ev;
     cached_Fq_Aq_vector := cached_Fq_Aq_vector ev;
     cached_Aq_Aq_matrix := cached_Aq_Aq_matrix ev;
     cached_Fq_Mq_vector := cached_Fq_Mq_vector ev;
     cached_Aq_Mq_matrix := cached_Aq_Mq_matrix ev;
     cached_Mq_Mq_matrix := cached_Mq_Mq_matrix ev;
     M_q_representor := M_q_representor ev |}.

(** ** The transient online solve *)

Section Online.

Context {collaborators : Collaborators}.

(** Modelled from the spec: [cache_online_residual_terms] is declared in the
    header and defined elsewhere.  Section 4.3: it contracts the
    representor-norm caches with [theta_q(mu)] into the [cached_*]
    quantities. *)
Definition cache_online_residual_terms (N : unsigned_int)
  (ev : TransientRBEvaluation) : TransientRBEvaluation :=
  write_cached_terms (contract_representor_norms (N.to_nat N) ev) ev.

(** The size every container indexed by the basis size has been allocated
    to, as far as the solve reads them. *)
Definition allocated_N_max (ev : TransientRBEvaluation) : nat :=
  Nat.min (length (RB_initial_condition_all_N ev))
          (length (initial_L2_error_all_N ev)).

(** Step 1 of section 4.2: the per-solve state is overwritten; the reduced
    state starts from the initial condition [u0] kept for this basis size
    and is recorded as time level 0, with the initial outputs and the
    initial error bounds got from the initial L2 error [e0]. *)
Definition record_time_level_0 (u0 : DenseVector) (e0 : Real)
  (ev : TransientRBEvaluation) : TransientRBEvaluation :=
  let ev1 := write_solution u0 [u0] ev in
  let (bound, output_bounds) := initial_error_bounds e0 in
  write_histories [compute_outputs u0] [output_bounds] [bound] ev1.

(** Step 2 of section 4.2: the reduced system of one generalized-Euler
    step,
    [(M/delta_t + euler_theta A) u = (M/delta_t - (1 - euler_theta) A) u_old + F],
    with [M], [A] and [F] the [theta_q(mu)]-weighted sums of the mass,
    stiffness and forcing components, and its dense direct solve. *)
Definition reduced_system (n : nat) (ev : TransientRBEvaluation)
  : DenseMatrix * DenseVector :=
  let td := temporal_discretization ev in
  let M := theta_weighted_matrix n theta_q_m 0 (RB_M_q_vector ev) in
  let A := theta_weighted_matrix n theta_q_a 0 (RB_A_q_vector (Parent ev)) in
  let F := theta_weighted_vector n theta_q_f 0 (RB_F_q_vector (Parent ev)) in
  let M_dt := mat_div M (get_delta_t td) in
  let LHS := mat_add M_dt (mat_scale (get_euler_theta td) A) in
  let RHS_matrix := mat_sub M_dt (mat_scale (1 - get_euler_theta td) A) in
  (LHS, vec_add (mat_vec RHS_matrix (old_RB_solution ev)) F).

(** Step 3 of section 4.2: the new state is stored as the next time level
    and becomes [old_RB_solution]; the outputs of the step are computed and
    the error-bound evaluator's results are appended to [error_bound_all_k]
    and [RB_output_error_bounds_all_k]. *)
Definition record_time_level (n : nat) (u : DenseVector)
  (ev : TransientRBEvaluation) : TransientRBEvaluation :=
  let ev1 := write_solution u (RB_temporal_solution_data ev ++ [u]) ev in
  let (bound, output_bounds) := error_bound_evaluator n ev1 in
  write_histories (RB_outputs_all_k ev1 ++ [compute_outputs u])
                  (RB_output_error_bounds_all_k ev1 ++ [output_bounds])
                  (error_bound_all_k ev1 ++ [bound])
                  ev1.

(** The loop over the time steps; a singular reduced system ends the
    solve. *)
Fixpoint time_march (n : nat) (steps : nat) (ev : TransientRBEvaluation)
  : solve_outcome TransientRBEvaluation :=
  match steps with
  | O => Solved ev
  | S steps' =>
      let (LHS, RHS) := reduced_system n ev in
      match lu_solve LHS RHS with
      | None => NumericalFailure
      | Some u => time_march n steps' (record_time_level n u ev)
      end
  end.

(** Modelled from the spec: [rb_solve] is declared in the header and defined
    elsewhere.  Section 4.2: a basis size outside [1, N_max] is a fatal
    precondition violation; the reduced state is initialised and recorded
    as time level 0 (entry [N - 1] of the containers that hold one entry
    for each basis size 1, ..., N_max); the residual terms are cached once,
    the parameter being fixed; [n_time_steps] generalized-Euler steps are
    taken; the value returned is the error bound on the state of the final
    time step, that is, the entry of [error_bound_all_k] for time level
    [n_time_steps]. *)
Definition rb_solve (N : unsigned_int) (ev : TransientRBEvaluation)
  : solve_outcome (Real * TransientRBEvaluation) :=
  let n := N.to_nat N in
  let K := N.to_nat (get_n_time_steps (temporal_discretization ev)) in
  if negb (Nat.leb 1 n && Nat.leb n (allocated_N_max ev))
  then PreconditionViolation
  else
    match nth_error (RB_initial_condition_all_N ev) (n - 1),
          nth_error (initial_L2_error_all_N ev) (n - 1) with
    | Some u0, Some e0 =>
        let ev0 :=
          cache_online_residual_terms N
            (record_time_level_0 (leading_part n u0) e0 ev) in
        match time_march n K ev0 with
        | Solved ev' =>
            match nth_error (error_bound_all_k ev') K with
            | Some bound => Solved (bound, ev')
            | None => PreconditionViolation
            end
        | PreconditionViolation => PreconditionViolation
        | NumericalFailure => NumericalFailure
        end
    | _, _ => PreconditionViolation
    end.

End Online.

(** ** A toy problem: one basis function, one affine term

    The scalar equation [du/dt = -u], [u(0) = 1], with [delta_t = 0.1] and
    [n_time_steps = 10]: mass and stiffness components [[1]], no forcing.
    The dense solve is that of a 1 by 1 system; the toy error bound of a
    step adds [delta_t] times the size of the new state to the bound of
    the step before. *)

Definition solve_1x1 (A : DenseMatrix) (b : DenseVector)
  : option DenseVector :=
  match A, b with
  | [[a]], [r] => if (a =? 0) then None else Some [r / a]
  | _, _ => None
  end.

Definition toy_error_bound (n : nat) (ev : TransientRBEvaluation)
  : Real * list Real :=
  let before := match last_entry (error_bound_all_k ev) with
                | Some b => b
                | None => 0
                end in
  (before
   + get_delta_t (temporal_discretization ev)
     * abs (dot (RB_solution (Parent ev)) [1]),
   []).

Definition toy_collaborators : Collaborators :=
  {| theta_q_a := fun _ => 1;
     theta_q_m := fun _ => 1;
     theta_q_f := fun _ => 1;
     lu_solve := solve_1x1;
     compute_outputs := fun u => u;
     initial_error_bounds := fun e0 => (e0, []);
     error_bound_evaluator := toy_error_bound;
     contract_representor_norms := fun _ _ =>
       {| Fq_term := 0; Fq_Aq_vector := []; Aq_Aq_matrix := [];
          Fq_Mq_vector := []; Aq_Mq_matrix := []; Mq_Mq_matrix := [] |} |}.

Definition toy_evaluation (euler_theta : Real) : TransientRBEvaluation :=
  {| Parent := {| RB_A_q_vector := [[[1]]];
                  RB_F_q_vector := [[0]];
                  RB_solution := [] |};
     temporal_discretization :=
       {| _delta_t := 0.1; _euler_theta := euler_theta;
          _current_time_step := 0%N; _n_time_steps := 10%N |};
     RB_L2_matrix := [[1]];
     RB_M_q_vector := [[[1]]];
     RB_outputs_all_k := [];
     RB_output_error_bounds_all_k := [];
     old_RB_solution := [];
     RB_temporal_solution_data := [];
     error_bound_all_k := [];
     initial_L2_error_all_N := [0];
     RB_initial_condition_all_N := [[1]];
     Fq_Mq_representor_norms := [];
     Mq_Mq_representor_norms := [];
     Aq_Mq_representor_norms := [];
     cached_Fq_term := 0;
     cached_Fq_Aq_vector := [];
     cached_Aq_Aq_matrix := [];
     cached_Fq_Mq_vector := [];
     cached_Aq_Mq_matrix := [];
     cached_Mq_Mq_matrix := [];
     M_q_representor := [] |}.

(** What a solve leaves to look at: the value returned, the trajectory and
    the error bounds of all time levels. *)
Definition solve_summary
  (r : solve_outcome (Real * TransientRBEvaluation))
  : option (Real * list DenseVector * list Real) :=
  match r with
  | Solved (b, ev) =>
      Some (b, RB_temporal_solution_data ev, error_bound_all_k ev)
  | _ => None
  end.

(** ** The march, one step at a time

    The trajectory of the object through the march, counted from its
    start: each step solves the reduced system of the object it is given
    and records the new time level. *)

Section Trajectory.

Context {collaborators : Collaborators}.

(** One step from the object [ev]; [None] when its reduced system is
    singular. *)
Definition march_step (n : nat) (ev : TransientRBEvaluation)
  : option TransientRBEvaluation :=
  match lu_solve (fst (reduced_system n ev)) (snd (reduced_system n ev)) with
  | Some u => Some (record_time_level n u ev)
  | None => None
  end.

(** The object after [k] steps from [ev], when each of them could be
    taken. *)
Fixpoint state_after_steps (n k : nat) (ev : TransientRBEvaluation)
  : option TransientRBEvaluation :=
  match k with
  | O => Some ev
  | S k' =>
      match state_after_steps n k' ev with
      | Some ev_k => march_step n ev_k
      | None => None
      end
  end.

End Trajectory.

(** * Part III: properties of [TemporalDiscretization] *)

Lemma libmesh_assert_true {A : Type} (rest : outcome A) :
  libmesh_assert true rest = rest.
Proof. reflexivity. Qed.

Lemma libmesh_assert_false {A : Type} (rest : outcome A) :
  libmesh_assert false rest = AssertionFailure.
Proof. reflexivity. Qed.

Lemma libmesh_assert_returned {A : Type} (b : bool) (rest : outcome A) (a : A) :
  libmesh_assert b rest = Returned a -> b = true /\ rest = Returned a.
Proof. destruct b; simpl; [auto | discriminate]. Qed.

Lemma set_euler_theta_in_range (t : Real) (td : TemporalDiscretization) :
  (0 <=? t) = true -> (t <=? 1) = true ->
  set_euler_theta t td
  = Returned {| _delta_t := _delta_t td;
                _euler_theta := t;
                _current_time_step := _current_time_step td;
                _n_time_steps := _n_time_steps td |}.
Proof.
  intros H0 H1. unfold set_euler_theta. rewrite H0, H1. reflexivity.
Qed.

Lemma set_euler_theta_out_of_range (t : Real) (td : TemporalDiscretization) :
  (0 <=? t) && (t <=? 1) = false ->
  set_euler_theta t td = AssertionFailure.
Proof. intros H. unfold set_euler_theta. rewrite H. reflexivity. Qed.

Lemma set_time_step_in_range (k : unsigned_int) (td : TemporalDiscretization) :
  (k <= get_n_time_steps td)%N ->
  set_time_step k td
  = Returned {| _delta_t := _delta_t td;
                _euler_theta := _euler_theta td;
                _current_time_step := k;
                _n_time_steps := _n_time_steps td |}.
Proof.
  intros H. unfold set_time_step.
  apply N.leb_le in H. rewrite H. reflexivity.
Qed.

Lemma set_time_step_out_of_range (k : unsigned_int)
  (td : TemporalDiscretization) :
  (get_n_time_steps td < k)%N -> set_time_step k td = AssertionFailure.
Proof.
  intros H. unfold set_time_step.
  apply N.leb_gt in H. rewrite H. reflexivity.
Qed.

(** The examples of the specification and the edge cases of the IEEE
    comparison. *)
Example set_euler_theta_crank_nicolson :
  set_euler_theta 0.5 TemporalDiscretization_ctor
  = Returned (Build 0 0.5 0 0).
Proof. reflexivity. Qed.

Example set_euler_theta_negative_zero :
  set_euler_theta (-0) TemporalDiscretization_ctor
  = Returned (Build 0 (-0) 0 0).
Proof. reflexivity. Qed.

Example set_euler_theta_nan :
  set_euler_theta nan TemporalDiscretization_ctor = AssertionFailure.
Proof. reflexivity. Qed.

Example set_time_step_on_fresh_object :
  set_time_step 1 TemporalDiscretization_ctor = AssertionFailure
  /\ set_time_step 0 TemporalDiscretization_ctor
     = Returned TemporalDiscretization_ctor.
Proof. split; reflexivity. Qed.

(** C1: [set_euler_theta(t)] returns, having stored [t], exactly when
    [0 <= t <= 1], and stops at its assertion otherwise;
    [set_time_step(k)] returns, having stored [k], exactly when
    [k <= n_time_steps], and stops at its assertion otherwise; in
    particular [set_euler_theta(-0.1)] and [set_euler_theta(1.1)] stop at
    the assertion, whatever the state of the object. *)
Theorem setters_assert_their_ranges :
  (forall (t : Real) (td : TemporalDiscretization),
      (set_euler_theta t td
       = Returned {| _delta_t := _delta_t td;
                     _euler_theta := t;
                     _current_time_step := _current_time_step td;
                     _n_time_steps := _n_time_steps td |}
       <-> (0 <=? t) = true /\ (t <=? 1) = true)
      /\ (set_euler_theta t td = AssertionFailure
          <-> ~ ((0 <=? t) = true /\ (t <=? 1) = true)))
  /\ (forall (k : unsigned_int) (td : TemporalDiscretization),
      (set_time_step k td
       = Returned {| _delta_t := _delta_t td;
                     _euler_theta := _euler_theta td;
                     _current_time_step := k;
                     _n_time_steps := _n_time_steps td |}
       <-> (k <= get_n_time_steps td)%N)
      /\ (set_time_step k td = AssertionFailure
          <-> (get_n_time_steps td < k)%N))
  /\ (forall td : TemporalDiscretization,
      set_euler_theta (-0.1) td = AssertionFailure
      /\ set_euler_theta 1.1 td = AssertionFailure).
Proof.
  split; [| split].
  - intros t td. split; split.
    + intros H. apply libmesh_assert_returned in H. destruct H as [H _].
      now apply andb_true_iff in H.
    + intros [H0 H1]. now apply set_euler_theta_in_range.
    + intros H [H0 H1].
      rewrite (set_euler_theta_in_range td H0 H1) in H. discriminate.
    + intros H. apply set_euler_theta_out_of_range.
      destruct (0 <=? t) eqn:H0; destruct (t <=? 1) eqn:H1; try reflexivity.
      exfalso. apply H. split; reflexivity.
  - intros k td. split; split.
    + intros H. apply libmesh_assert_returned in H. destruct H as [H _].
      now apply N.leb_le.
    + apply set_time_step_in_range.
    + intros H. destruct (N.lt_ge_cases (get_n_time_steps td) k) as [L | L].
      * exact L.
      * rewrite (set_time_step_in_range td L) in H. discriminate.
    + apply set_time_step_out_of_range.
  - intros td. split; apply set_euler_theta_out_of_range; reflexivity.
Qed.

Lemma invariant_spelled_out (td : TemporalDiscretization) :
  invariant td = true
  <-> (get_time_step td <= get_n_time_steps td)%N
      /\ (0 <=? get_euler_theta td) = true
      /\ (get_euler_theta td <=? 1) = true.
Proof.
  unfold invariant. rewrite !andb_true_iff, !N.leb_le. split.
  - intros [[[_ H1] H2] H3]. auto.
  - intros [H1 [H2 H3]]. repeat split; try assumption. apply N.le_0_l.
Qed.

(** C2, as stated, fails: after [set_n_time_steps(10)] and
    [set_time_step(5)] on a fresh object the invariant holds, and the call
    [set_n_time_steps(3)] returns with the step index 5 above the step
    count 3. *)
Lemma set_n_time_steps_breaks_invariant :
  run_setters [Set_n_time_steps 10; Set_time_step 5]
    TemporalDiscretization_ctor
  = Returned (Build 0 0 5 10)
  /\ invariant (Build 0 0 5 10) = true
  /\ call_setter (Set_n_time_steps 3) (Build 0 0 5 10)
     = Returned (Build 0 0 5 3)
  /\ invariant (Build 0 0 5 3) = false.
Proof. repeat split. Qed.

(** C2, amended: the invariant holds after construction; every call of
    [set_delta_t], [set_euler_theta] and [set_time_step] that returns
    preserves it, and so does a [set_n_time_steps(K)] with [K] not below
    the current time step.  [set_n_time_steps(K)] performs no check: it
    always returns, with [K] stored and nothing else changed, and from a
    state with the invariant it leaves the invariant standing exactly when
    [K >= current_time_step]; with [K] below the current time step it
    returns an object whose [current_time_step] exceeds its
    [n_time_steps]. *)
Theorem invariant_kept_while_count_covers_step :
  invariant TemporalDiscretization_ctor = true
  /\ (forall (c : setter_call) (td td' : TemporalDiscretization),
      invariant td = true ->
      keeps_step_in_range c td = true ->
      call_setter c td = Returned td' ->
      invariant td' = true)
  /\ (forall (c : setter_call) (td td' : TemporalDiscretization),
      (forall K : unsigned_int, c <> Set_n_time_steps K) ->
      invariant td = true ->
      call_setter c td = Returned td' ->
      invariant td' = true)
  /\ (forall (K : unsigned_int) (td : TemporalDiscretization),
      set_n_time_steps K td
      = Returned {| _delta_t := _delta_t td;
                    _euler_theta := _euler_theta td;
                    _current_time_step := _current_time_step td;
                    _n_time_steps := K |}
      /\ (invariant td = true ->
          (invariant {| _delta_t := _delta_t td;
                        _euler_theta := _euler_theta td;
                        _current_time_step := _current_time_step td;
                        _n_time_steps := K |} = true
           <-> (get_time_step td <= K)%N))
      /\ ((K < get_time_step td)%N ->
          forall td' : TemporalDiscretization,
            set_n_time_steps K td = Returned td' ->
            (get_n_time_steps td' < get_time_step td')%N
            /\ invariant td' = false)).
Proof.
  assert (Hkeep : forall (c : setter_call) (td td' : TemporalDiscretization),
             invariant td = true ->
             keeps_step_in_range c td = true ->
             call_setter c td = Returned td' ->
             invariant td' = true).
  { intros c td td' Hinv Hc Hcall.
    apply invariant_spelled_out in Hinv. destruct Hinv as [Hk [H0 H1]].
    apply invariant_spelled_out.
    destruct c as [d | t | k | K]; simpl in Hcall, Hc.
    - injection Hcall as <-. auto.
    - apply libmesh_assert_returned in Hcall. destruct Hcall as [Hb Hr].
      injection Hr as <-. apply andb_true_iff in Hb. simpl.
      unfold get_time_step, get_n_time_steps, get_euler_theta in *. simpl.
      tauto.
    - apply libmesh_assert_returned in Hcall. destruct Hcall as [Hb Hr].
      injection Hr as <-. apply N.leb_le in Hb. auto.
    - injection Hcall as <-. apply N.leb_le in Hc. auto. }
  split; [reflexivity | split; [exact Hkeep | split]].
  - intros c td td' Hc Hinv Hcall.
    apply (Hkeep c td td' Hinv); [| exact Hcall].
    destruct c as [d | t | k | K]; try reflexivity.
    exfalso. exact (Hc K eq_refl).
  - intros K td. split; [reflexivity | split].
    + intros Hinv. apply invariant_spelled_out in Hinv.
      destruct Hinv as [Hk [H0 H1]].
      rewrite invariant_spelled_out.
      unfold get_time_step, get_n_time_steps, get_euler_theta in *. simpl.
      tauto.
    + intros HK td' Hcall. injection Hcall as <-.
      unfold get_time_step, get_n_time_steps in *. simpl.
      split; [exact HK |].
      unfold invariant, get_time_step, get_n_time_steps. simpl.
      apply N.leb_gt in HK. rewrite HK.
      rewrite andb_false_r. reflexivity.
Qed.

Lemma invariant_kept_while_count_covers_step_witness :
  invariant (Build 0.1 0.5 5 10) = true
  /\ keeps_step_in_range (Set_n_time_steps 7) (Build 0.1 0.5 5 10) = true
  /\ call_setter (Set_n_time_steps 7) (Build 0.1 0.5 5 10)
     = Returned (Build 0.1 0.5 5 7)
  /\ invariant (Build 0.1 0.5 5 7) = true.
Proof.
  split; [reflexivity | split; [reflexivity | split; [reflexivity |]]].
  apply (proj1 (proj2 invariant_kept_while_count_covers_step)
           (Set_n_time_steps 7) (Build 0.1 0.5 5 10) (Build 0.1 0.5 5 7));
    reflexivity.
Defined.

(** C3, as stated, fails: [set_delta_t] asserts nothing; it accepts [-1.],
    [0.] and NaN and stores them. *)
Lemma set_delta_t_accepts_nonpositive :
  set_delta_t (-1) TemporalDiscretization_ctor = Returned (Build (-1) 0 0 0)
  /\ (0 <? get_delta_t (Build (-1) 0 0 0)) = false
  /\ set_delta_t 0 (Build 0.1 0 0 0) = Returned (Build 0 0 0 0)
  /\ (0 <? get_delta_t (Build 0 0 0 0)) = false
  /\ set_delta_t nan TemporalDiscretization_ctor = Returned (Build nan 0 0 0)
  /\ (0 <? get_delta_t (Build nan 0 0 0)) = false.
Proof. repeat split. Qed.

(** C3, amended: [set_delta_t(d)] has no precondition; for every argument
    [d] and every state it returns, having stored [d] as given, so the
    stored [delta_t] is strictly positive exactly when [d] is. *)
Theorem set_delta_t_stores_any_argument :
  forall (d : Real) (td : TemporalDiscretization),
    set_delta_t d td
    = Returned {| _delta_t := d;
                  _euler_theta := _euler_theta td;
                  _current_time_step := _current_time_step td;
                  _n_time_steps := _n_time_steps td |}
    /\ (forall td', set_delta_t d td = Returned td' ->
          get_delta_t td' = d
          /\ (0 <? get_delta_t td') = (0 <? d)).
Proof.
  intros d td. split; [reflexivity |].
  intros td' H. injection H as <-. split; reflexivity.
Qed.

(** C4: a setter call that returns has written its own member only: the
    other three members are as before the call. *)
Theorem setters_write_own_member_only
  (c : setter_call) (td td' : TemporalDiscretization) :
  call_setter c td = Returned td' ->
  other_members_unchanged c td td'.
Proof.
  intros H. destruct c as [d | t | k | K]; simpl in H.
  - injection H as <-. simpl. auto.
  - apply libmesh_assert_returned in H. destruct H as [_ H].
    injection H as <-. simpl. auto.
  - apply libmesh_assert_returned in H. destruct H as [_ H].
    injection H as <-. simpl. auto.
  - injection H as <-. simpl. auto.
Qed.

Lemma setters_write_own_member_only_witness :
  call_setter (Set_time_step 4) (Build 0.1 0.5 2 10)
  = Returned (Build 0.1 0.5 4 10)
  /\ other_members_unchanged (Set_time_step 4)
       (Build 0.1 0.5 2 10) (Build 0.1 0.5 4 10).
Proof.
  split; [reflexivity |].
  apply (@setters_write_own_member_only (Set_time_step 4)
           (Build 0.1 0.5 2 10) (Build 0.1 0.5 4 10)).
  reflexivity.
Defined.

(** C10: a default-constructed object has [delta_t = 0],
    [euler_theta = 0] (Forward Euler), [current_time_step = 0] and
    [n_time_steps = 0]; its [delta_t] is not positive. *)
Theorem ctor_all_zero :
  get_delta_t TemporalDiscretization_ctor = 0
  /\ get_euler_theta TemporalDiscretization_ctor = 0
  /\ get_time_step TemporalDiscretization_ctor = 0%N
  /\ get_n_time_steps TemporalDiscretization_ctor = 0%N
  /\ (0 <? get_delta_t TemporalDiscretization_ctor) = false.
Proof. repeat split. Qed.

(** * Part IV: properties of the transient online solve *)

Lemma last_entry_app {A : Type} (l : list A) (a : A) :
  last_entry (l ++ [a]) = Some a.
Proof.
  induction l as [| x l IH]; [reflexivity |].
  simpl. rewrite IH. destruct (l ++ [a]) eqn:E; [| reflexivity].
  destruct l; discriminate.
Qed.

Lemma nth_error_is_last_entry {A : Type} (l : list A) (K : nat) :
  length l = S K -> nth_error l K = last_entry l.
Proof.
  revert K. induction l as [| x l IH]; intros K H; [discriminate |].
  simpl in H. injection H as H. destruct l as [| y l].
  - simpl in H. subst K. reflexivity.
  - destruct K as [| K]; [discriminate |].
    change (nth_error (y :: l) K = last_entry (y :: l)).
    apply IH. exact H.
Qed.

Lemma nth_error_in_range {A : Type} (l : list A) (i : nat) :
  (i < length l)%nat -> exists a, nth_error l i = Some a.
Proof.
  intros H. destruct (nth_error l i) eqn:E; [eauto |].
  apply nth_error_None in E. lia.
Qed.

Lemma last_entry_of_nonempty {A : Type} (l : list A) (K : nat) :
  length l = S K -> exists a, last_entry l = Some a.
Proof.
  intros H. rewrite <- (nth_error_is_last_entry _ H).
  apply nth_error_in_range. lia.
Qed.

Section OnlineProperties.

Context {collaborators : Collaborators}.

Lemma record_time_level_0_bounds (u0 : DenseVector) (e0 : Real)
  (ev : TransientRBEvaluation) :
  length (error_bound_all_k (record_time_level_0 u0 e0 ev)) = 1%nat
  /\ temporal_discretization (record_time_level_0 u0 e0 ev)
     = temporal_discretization ev.
Proof.
  unfold record_time_level_0.
  destruct (initial_error_bounds e0) as [b obs]. split; reflexivity.
Qed.

Lemma cache_online_residual_terms_frame (N : unsigned_int)
  (ev : TransientRBEvaluation) :
  error_bound_all_k (cache_online_residual_terms N ev) = error_bound_all_k ev
  /\ temporal_discretization (cache_online_residual_terms N ev)
     = temporal_discretization ev.
Proof. split; reflexivity. Qed.

Lemma record_time_level_bounds (n : nat) (u : DenseVector)
  (ev : TransientRBEvaluation) :
  (exists b, error_bound_all_k (record_time_level n u ev)
             = error_bound_all_k ev ++ [b])
  /\ temporal_discretization (record_time_level n u ev)
     = temporal_discretization ev.
Proof.
  unfold record_time_level.
  destruct (error_bound_evaluator n _) as [b obs].
  split; [exists b |]; reflexivity.
Qed.

(** The march appends one error bound per step and leaves the temporal
    discretization alone. *)
Lemma time_march_bounds (n steps : nat) :
  forall ev ev' : TransientRBEvaluation,
    time_march n steps ev = Solved ev' ->
    length (error_bound_all_k ev')
    = (length (error_bound_all_k ev) + steps)%nat
    /\ temporal_discretization ev' = temporal_discretization ev.
Proof.
  induction steps as [| steps IH]; intros ev ev'; simpl.
  - intros H. injection H as H. subst ev'. split; [lia | reflexivity].
  - destruct (lu_solve _ _) as [u |]; [| discriminate].
    intros H. apply IH in H. destruct H as [Hlen Htd].
    destruct (record_time_level_bounds n u ev) as [[b Hb] Htd'].
    rewrite Hb, length_app in Hlen. simpl in Hlen.
    split; [lia | congruence].
Qed.

Lemma time_march_no_violation (n steps : nat) :
  forall ev : TransientRBEvaluation,
    time_march n steps ev <> PreconditionViolation.
Proof.
  induction steps as [| steps IH]; intros ev; simpl; [discriminate |].
  destruct (lu_solve _ _) as [u |]; [apply IH | discriminate].
Qed.

(** With a dense solve that never fails, the march completes. *)
Lemma time_march_completes (n steps : nat) :
  (forall A b, lu_solve A b <> None) ->
  forall ev : TransientRBEvaluation,
    exists ev', time_march n steps ev = Solved ev'.
Proof.
  intros Hsolve. induction steps as [| steps IH]; intros ev; simpl.
  - eauto.
  - destruct (lu_solve _ _) as [u |] eqn:E; [apply IH |].
    exfalso. exact (Hsolve _ _ E).
Qed.

Lemma time_march_head (n steps : nat) (ev : TransientRBEvaluation) :
  time_march n (S steps) ev
  = match march_step n ev with
    | Some ev1 => time_march n steps ev1
    | None => NumericalFailure
    end.
Proof.
  unfold march_step. simpl.
  destruct (lu_solve _ _) as [u |]; reflexivity.
Qed.

Lemma state_after_steps_head (n k : nat) (ev : TransientRBEvaluation) :
  state_after_steps n (S k) ev
  = match march_step n ev with
    | Some ev1 => state_after_steps n k ev1
    | None => None
    end.
Proof.
  induction k as [| k IH].
  - simpl. destruct (march_step n ev); reflexivity.
  - change (state_after_steps n (S (S k)) ev)
      with (match state_after_steps n (S k) ev with
            | Some ev_k => march_step n ev_k
            | None => None
            end).
    rewrite IH. destruct (march_step n ev) as [ev1 |]; reflexivity.
Qed.

(** The loop of the solve follows the trajectory: it ends in the object
    after all the steps, or fails when the trajectory breaks off. *)
Lemma time_march_trajectory (n steps : nat) :
  forall ev : TransientRBEvaluation,
    time_march n steps ev
    = match state_after_steps n steps ev with
      | Some ev' => Solved ev'
      | None => NumericalFailure
      end.
Proof.
  induction steps as [| steps IH]; intros ev; [reflexivity |].
  rewrite time_march_head, state_after_steps_head.
  destruct (march_step n ev) as [ev1 |]; [apply IH | reflexivity].
Qed.

(** The trajectory breaks off exactly at a singular reduced system. *)
Lemma state_after_steps_none (n K : nat) (ev : TransientRBEvaluation) :
  state_after_steps n K ev = None
  <-> exists (k : nat) (ev_k : TransientRBEvaluation),
        (k < K)%nat
        /\ state_after_steps n k ev = Some ev_k
        /\ lu_solve (fst (reduced_system n ev_k))
                    (snd (reduced_system n ev_k)) = None.
Proof.
  induction K as [| K IH].
  - split; [discriminate |]. intros (k & ev_k & Hk & _). lia.
  - split.
    + intros H. simpl in H.
      destruct (state_after_steps n K ev) as [ev_K |] eqn:HK.
      * exists K, ev_K. split; [lia | split; [exact HK |]].
        unfold march_step in H.
        destruct (lu_solve _ _); [discriminate | reflexivity].
      * destruct (proj1 IH eq_refl) as (k & ev_k & Hk & Hs & Hl).
        exists k, ev_k. split; [lia | auto].
    + intros (k & ev_k & Hk & Hs & Hl). simpl.
      destruct (Nat.eq_dec k K) as [-> | Hne].
      * rewrite Hs. unfold march_step. rewrite Hl. reflexivity.
      * assert (HN : state_after_steps n K ev = None).
        { apply IH. exists k, ev_k. split; [lia | auto]. }
        rewrite HN. reflexivity.
Qed.

(** What the last step of a trajectory has recorded. *)
Lemma state_after_steps_last (n k : nat) (ev ev' : TransientRBEvaluation) :
  state_after_steps n (S k) ev = Some ev' ->
  exists (ev_k : TransientRBEvaluation) (u : DenseVector),
    state_after_steps n k ev = Some ev_k
    /\ lu_solve (fst (reduced_system n ev_k))
                (snd (reduced_system n ev_k)) = Some u
    /\ RB_temporal_solution_data ev' = RB_temporal_solution_data ev_k ++ [u]
    /\ error_bound_all_k ev'
       = error_bound_all_k ev_k
         ++ [fst (error_bound_evaluator n
                    (write_solution u
                       (RB_temporal_solution_data ev_k ++ [u]) ev_k))].
Proof.
  simpl. destruct (state_after_steps n k ev) as [ev_k |]; [| discriminate].
  unfold march_step.
  destruct (lu_solve _ _) as [u |] eqn:Hu; [| discriminate].
  intros H. injection H as H. subst ev'.
  exists ev_k, u. split; [reflexivity | split; [exact Hu |]].
  unfold record_time_level.
  destruct (error_bound_evaluator n _) as [b obs]. split; reflexivity.
Qed.

(** C5: for every valid basis size [1 <= N <= N_max], [rb_solve(N)] fails
    numerically exactly when the reduced system of one of the
    [n_time_steps] steps is singular; otherwise it returns, with the object
    after the last step, the last entry of the [error_bound_all_k] computed
    in this solve, which holds one bound for each of the time levels
    [0, ..., n_time_steps]: the bound the error-bound evaluator gave for
    the final time step's state (the initial bound when there is no step).
    With a dense solve that never fails the solve always returns. *)
Theorem rb_solve_returns_final_error_bound
  (N : unsigned_int) (ev : TransientRBEvaluation) :
  (1 <= N.to_nat N <= allocated_N_max ev)%nat ->
  let n := N.to_nat N in
  let K := N.to_nat (get_n_time_steps (temporal_discretization ev)) in
  let u0 := nth (n - 1) (RB_initial_condition_all_N ev) [] in
  let e0 := nth (n - 1) (initial_L2_error_all_N ev) 0 in
  let ev0 :=
    cache_online_residual_terms N
      (record_time_level_0 (leading_part n u0) e0 ev) in
  (rb_solve N ev = NumericalFailure
   <-> exists (k : nat) (ev_k : TransientRBEvaluation),
         (k < K)%nat
         /\ state_after_steps n k ev0 = Some ev_k
         /\ lu_solve (fst (reduced_system n ev_k))
                     (snd (reduced_system n ev_k)) = None)
  /\ (forall ev' : TransientRBEvaluation,
        state_after_steps n K ev0 = Some ev' ->
        exists bound : Real,
          rb_solve N ev = Solved (bound, ev')
          /\ last_entry (error_bound_all_k ev') = Some bound
          /\ length (error_bound_all_k ev') = S K
          /\ match K with
             | O => bound = fst (initial_error_bounds e0)
             | S k =>
                 exists (ev_k : TransientRBEvaluation) (u : DenseVector),
                   state_after_steps n k ev0 = Some ev_k
                   /\ lu_solve (fst (reduced_system n ev_k))
                               (snd (reduced_system n ev_k)) = Some u
                   /\ last_entry (RB_temporal_solution_data ev') = Some u
                   /\ bound
                      = fst (error_bound_evaluator n
                               (write_solution u
                                  (RB_temporal_solution_data ev_k ++ [u])
                                  ev_k))
             end)
  /\ ((forall A b, lu_solve A b <> None) ->
      exists (bound : Real) (ev' : TransientRBEvaluation),
        rb_solve N ev = Solved (bound, ev')).
Proof.
  intros [H1 Hmax] n K u0 e0 ev0.
  assert (Hbounds0 : error_bound_all_k ev0 = [fst (initial_error_bounds e0)]).
  { subst ev0. rewrite (proj1 (cache_online_residual_terms_frame N _)).
    unfold record_time_level_0.
    destruct (initial_error_bounds e0) as [b obs]. reflexivity. }
  assert (Hsolve :
           rb_solve N ev
           = match state_after_steps n K ev0 with
             | Some ev' =>
                 match nth_error (error_bound_all_k ev') K with
                 | Some bound => Solved (bound, ev')
                 | None => PreconditionViolation
                 end
             | None => NumericalFailure
             end).
  { unfold ev0, e0, u0, K, n, rb_solve.
    apply Nat.leb_le in H1 as H1b. apply Nat.leb_le in Hmax as Hmaxb.
    rewrite H1b, Hmaxb. simpl negb. cbv iota.
    unfold allocated_N_max in Hmax.
    rewrite (@nth_error_nth' _ (RB_initial_condition_all_N ev)
               (N.to_nat N - 1) []) by lia.
    rewrite (@nth_error_nth' _ (initial_L2_error_all_N ev)
               (N.to_nat N - 1) 0) by lia.
    rewrite time_march_trajectory.
    destruct (state_after_steps _ _ _); reflexivity. }
  assert (Hreturn : forall ev' : TransientRBEvaluation,
             state_after_steps n K ev0 = Some ev' ->
             length (error_bound_all_k ev') = S K
             /\ rb_solve N ev
                = match last_entry (error_bound_all_k ev') with
                  | Some bound => Solved (bound, ev')
                  | None => PreconditionViolation
                  end).
  { intros ev' Hev'.
    assert (Hlen : length (error_bound_all_k ev') = S K).
    { pose proof (time_march_trajectory n K ev0) as Hm.
      rewrite Hev' in Hm. apply time_march_bounds in Hm.
      destruct Hm as [Hlen _]. rewrite Hbounds0 in Hlen. exact Hlen. }
    split; [exact Hlen |].
    rewrite Hsolve, Hev', (nth_error_is_last_entry _ Hlen). reflexivity. }
  split; [| split].
  - rewrite <- state_after_steps_none. rewrite Hsolve. split.
    + intros H.
      destruct (state_after_steps n K ev0) as [ev' |] eqn:Hev';
        [| reflexivity].
      exfalso. destruct (Hreturn ev' eq_refl) as [Hlen _].
      rewrite (nth_error_is_last_entry _ Hlen) in H.
      destruct (last_entry_of_nonempty _ Hlen) as [b Hb].
      rewrite Hb in H. discriminate H.
    + intros H. rewrite H. reflexivity.
  - intros ev' Hev'. destruct (Hreturn ev' Hev') as [Hlen Hrb].
    destruct K as [| k].
    + simpl in Hev'. injection Hev' as Hev'. subst ev'.
      rewrite Hbounds0 in Hrb |- *. simpl in Hrb.
      exists (fst (initial_error_bounds e0)). repeat split; assumption.
    + destruct (state_after_steps_last n k ev0 Hev')
        as (ev_k & u & Hk & Hu & Hdata & Hb).
      rewrite Hb, last_entry_app in Hrb.
      eexists. split; [exact Hrb |].
      split; [rewrite Hb; apply last_entry_app |].
      split; [exact Hlen |].
      exists ev_k, u. split; [exact Hk | split; [exact Hu |]].
      split; [rewrite Hdata; apply last_entry_app | reflexivity].
  - intros Htotal.
    destruct (time_march_completes n K Htotal ev0) as [ev' Hm].
    rewrite time_march_trajectory in Hm.
    destruct (state_after_steps n K ev0) as [ev1 |] eqn:Hev1;
      [| discriminate].
    destruct (Hreturn ev1 eq_refl) as [Hlen Hrb].
    destruct (last_entry_of_nonempty _ Hlen) as [bound Hb].
    rewrite Hb in Hrb. exists bound, ev1. exact Hrb.
Qed.

End OnlineProperties.

Lemma rb_solve_returns_final_error_bound_witness :
  (1 <= N.to_nat 1 <= allocated_N_max (toy_evaluation 1))%nat
  /\ exists (bound : Real) (ev' : TransientRBEvaluation),
       @rb_solve toy_collaborators 1 (toy_evaluation 1) = Solved (bound, ev')
       /\ last_entry (error_bound_all_k ev') = Some bound
       /\ length (error_bound_all_k ev') = 11%nat.
Proof.
  assert (V : (1 <= N.to_nat 1 <= allocated_N_max (toy_evaluation 1))%nat)
    by (vm_compute; lia).
  split; [exact V |].
  pose proof (@rb_solve_returns_final_error_bound toy_collaborators
                1%N (toy_evaluation 1) V) as H.
  cbv zeta in H. destruct H as (_ & Hret & _).
  match type of Hret with
  | forall ev', ?s = Some ev' -> _ =>
      destruct s as [ev' |] eqn:Hs; [| vm_compute in Hs; discriminate Hs]
  end.
  destruct (Hret ev' eq_refl) as (bound & Hsolve & Hlast & Hlen & _).
  exists bound, ev'. split; [exact Hsolve | split; [exact Hlast | exact Hlen]].
Defined.

(** The toy problem, run: Backward Euler multiplies the state by [1/1.1]
    at each step, Forward Euler by [0.9], Crank-Nicolson by [0.95/1.05];
    the value returned is the bound of time level 10. *)
Example toy_backward_euler :
  solve_summary (@rb_solve toy_collaborators 1 (toy_evaluation 1))
  = Some
      (0.61445671057046836,
       [[1]; [0.90909090909090906]; [0.82644628099173545];
        [0.75131480090157765]; [0.68301345536507063];
        [0.62092132305915515]; [0.56447393005377744];
        [0.51315811823070678]; [0.46650738020973342];
        [0.42409761837248489]; [0.3855432894295317]],
       [0; 0.090909090909090912; 0.17355371900826447; 0.24868519909842224;
        0.31698654463492931; 0.37907867694084485; 0.43552606994622262;
        0.48684188176929333; 0.53349261979026663; 0.57590238162751517;
        0.61445671057046836]).
Proof. vm_compute. reflexivity. Qed.

Example toy_forward_euler :
  option_map (fun s => (fst (fst s), last_entry (snd (fst s))))
    (solve_summary (@rb_solve toy_collaborators 1 (toy_evaluation 0)))
  = Some (0.58618940390999996, Some [0.34867844009999993]).
Proof. vm_compute. reflexivity. Qed.

Example toy_crank_nicolson :
  option_map (fun s => (fst (fst s), last_entry (snd (fst s))))
    (solve_summary (@rb_solve toy_collaborators 1 (toy_evaluation 0.5)))
  = Some (0.60080608473627428, Some [0.36757254238286913]).
Proof. vm_compute. reflexivity. Qed.

(** Basis sizes outside [1, N_max] (here [N_max = 1]) are refused. *)
Example toy_invalid_basis_size :
  @rb_solve toy_collaborators 0 (toy_evaluation 1) = PreconditionViolation
  /\ @rb_solve toy_collaborators 2 (toy_evaluation 1)
     = PreconditionViolation.
Proof. split; reflexivity. Qed.

(** * Part V: further properties of [TemporalDiscretization] *)

Lemma run_setters_app (cs1 cs2 : list setter_call) :
  forall td : TemporalDiscretization,
    run_setters (cs1 ++ cs2) td
    = match run_setters cs1 td with
      | Returned td1 => run_setters cs2 td1
      | AssertionFailure => AssertionFailure
      end.
Proof.
  induction cs1 as [| c cs1 IH]; intros td; simpl; [reflexivity |].
  destruct (call_setter c td) as [td1 |]; [apply IH | reflexivity].
Qed.

Lemma theta_in_range_after_call (c : setter_call)
  (td td' : TemporalDiscretization) :
  theta_in_range td = true ->
  call_setter c td = Returned td' ->
  theta_in_range td' = true.
Proof.
  intros Hin H. destruct c as [d | t | k | K]; simpl in H.
  - injection H as <-. exact Hin.
  - apply libmesh_assert_returned in H. destruct H as [Hb H].
    injection H as <-. exact Hb.
  - apply libmesh_assert_returned in H. destruct H as [_ H].
    injection H as <-. exact Hin.
  - injection H as <-. exact Hin.
Qed.

Lemma theta_in_range_after_run (cs : list setter_call) :
  forall td td' : TemporalDiscretization,
    theta_in_range td = true ->
    run_setters cs td = Returned td' ->
    theta_in_range td' = true.
Proof.
  induction cs as [| c cs IH]; intros td td' Hin; simpl.
  - intros H. injection H as H. subst td'. exact Hin.
  - destruct (call_setter c td) as [td1 |] eqn:Hc; [| discriminate].
    apply IH. exact (theta_in_range_after_call c td Hin Hc).
Qed.

Lemma theta_in_range_not_nan (td : TemporalDiscretization) :
  theta_in_range td = true -> get_euler_theta td <> nan.
Proof.
  unfold theta_in_range. intros H E. rewrite E in H. discriminate H.
Qed.

(** X1: after a setter call that returns, the getter of the member it
    assigns to gives back the argument of the call, bit for bit. *)
Theorem getter_after_setter
  (c : setter_call) (td td' : TemporalDiscretization) :
  call_setter c td = Returned td' ->
  getter_returns_argument c td'.
Proof.
  intros H. destruct c as [d | t | k | K]; simpl in H.
  - injection H as <-. reflexivity.
  - apply libmesh_assert_returned in H. destruct H as [_ H].
    injection H as <-. reflexivity.
  - apply libmesh_assert_returned in H. destruct H as [_ H].
    injection H as <-. reflexivity.
  - injection H as <-. reflexivity.
Qed.

Lemma getter_after_setter_witness :
  call_setter (Set_euler_theta 0.5) TemporalDiscretization_ctor
  = Returned (Build 0 0.5 0 0)
  /\ getter_returns_argument (Set_euler_theta 0.5) (Build 0 0.5 0 0).
Proof.
  split; [reflexivity |].
  apply (@getter_after_setter (Set_euler_theta 0.5)
           TemporalDiscretization_ctor (Build 0 0.5 0 0)).
  reflexivity.
Defined.

(** X2: the last write wins: when two calls assign to the same member and
    the first returns, the second behaves on the object it leaves exactly
    as it would have on the object before the first (same state, or the
    same failed assertion). *)
Theorem last_write_wins
  (c1 c2 : setter_call) (td td1 : TemporalDiscretization) :
  written_member c1 = written_member c2 ->
  call_setter c1 td = Returned td1 ->
  call_setter c2 td1 = call_setter c2 td.
Proof.
  intros Hm H.
  destruct c1 as [d1 | t1 | k1 | K1]; destruct c2 as [d2 | t2 | k2 | K2];
    try discriminate Hm; simpl in H |- *.
  - injection H as <-. reflexivity.
  - apply libmesh_assert_returned in H. destruct H as [_ H].
    injection H as <-. reflexivity.
  - apply libmesh_assert_returned in H. destruct H as [_ H].
    injection H as <-. reflexivity.
  - injection H as <-. reflexivity.
Qed.

Lemma last_write_wins_witness :
  written_member (Set_time_step 3) = written_member (Set_time_step 7)
  /\ call_setter (Set_time_step 3) (Build 0.1 0.5 0 10)
     = Returned (Build 0.1 0.5 3 10)
  /\ call_setter (Set_time_step 7) (Build 0.1 0.5 3 10)
     = call_setter (Set_time_step 7) (Build 0.1 0.5 0 10).
Proof.
  split; [reflexivity | split; [reflexivity |]].
  apply (@last_write_wins (Set_time_step 3) (Set_time_step 7)
           (Build 0.1 0.5 0 10) (Build 0.1 0.5 3 10));
    reflexivity.
Defined.

(** X3: independent calls commute: two calls that assign to different
    members, other than the pair [set_time_step] / [set_n_time_steps], give
    the same result in either order, failed assertions included. *)
Theorem independent_calls_commute
  (c1 c2 : setter_call) (td : TemporalDiscretization) :
  independent c1 c2 = true ->
  run_setters [c1; c2] td = run_setters [c2; c1] td.
Proof.
  intros Hi. destruct td as [d th cur n].
  destruct c1 as [d1 | t1 | k1 | K1]; destruct c2 as [d2 | t2 | k2 | K2];
    try discriminate Hi; clear Hi;
    cbv beta iota delta
      [run_setters call_setter set_delta_t set_euler_theta set_time_step
       set_n_time_steps libmesh_assert get_n_time_steps
       _delta_t _euler_theta _current_time_step _n_time_steps];
    repeat match goal with
           | |- context [if ?b then _ else _] =>
               match type of b with bool => destruct b eqn:? end;
               cbv beta iota delta
                 [_delta_t _euler_theta _current_time_step _n_time_steps]
           end;
    solve [reflexivity | congruence].
Qed.

Lemma independent_calls_commute_witness :
  independent (Set_euler_theta 1.1) (Set_delta_t 0.1) = true
  /\ run_setters [Set_euler_theta 1.1; Set_delta_t 0.1]
       TemporalDiscretization_ctor
     = run_setters [Set_delta_t 0.1; Set_euler_theta 1.1]
         TemporalDiscretization_ctor.
Proof.
  split; [reflexivity |].
  apply (@independent_calls_commute (Set_euler_theta 1.1) (Set_delta_t 0.1)
           TemporalDiscretization_ctor).
  reflexivity.
Defined.

(** X4: the order of [set_n_time_steps] and [set_time_step] matters.
    Setting the count [K] first and the step [k] second is accepted exactly
    when [k <= K], whatever the count was before; setting the step first is
    judged against the old count.  Either order, when accepted, ends with
    step [k] of [K]. *)
Theorem step_is_checked_against_current_count
  (K k : unsigned_int) (td : TemporalDiscretization) :
  (run_setters [Set_n_time_steps K; Set_time_step k] td
   = Returned {| _delta_t := _delta_t td;
                 _euler_theta := _euler_theta td;
                 _current_time_step := k;
                 _n_time_steps := K |}
   <-> (k <= K)%N)
  /\ (run_setters [Set_n_time_steps K; Set_time_step k] td = AssertionFailure
      <-> (K < k)%N)
  /\ (run_setters [Set_time_step k; Set_n_time_steps K] td
      = Returned {| _delta_t := _delta_t td;
                    _euler_theta := _euler_theta td;
                    _current_time_step := k;
                    _n_time_steps := K |}
      <-> (k <= get_n_time_steps td)%N)
  /\ (run_setters [Set_time_step k; Set_n_time_steps K] td = AssertionFailure
      <-> (get_n_time_steps td < k)%N).
Proof.
  destruct td as [d th cur n].
  cbv beta iota delta
    [run_setters call_setter set_time_step set_n_time_steps libmesh_assert
     get_n_time_steps _delta_t _euler_theta _current_time_step
     _n_time_steps].
  destruct (N.leb_spec k K) as [HK | HK];
    destruct (N.leb_spec k n) as [Hn | Hn];
    repeat split; intros H;
    solve [reflexivity | assumption | discriminate H | lia].
Qed.

(** X5: [0 <= euler_theta <= 1] is kept by every sequence of setter calls
    that returns, from any state in which it holds; in particular
    [euler_theta] is then never NaN. *)
Theorem euler_theta_stays_in_range
  (cs : list setter_call) (td td' : TemporalDiscretization) :
  theta_in_range td = true ->
  run_setters cs td = Returned td' ->
  theta_in_range td' = true /\ get_euler_theta td' <> nan.
Proof.
  intros Hin Hrun.
  assert (H : theta_in_range td' = true)
    by exact (theta_in_range_after_run cs td Hin Hrun).
  split; [exact H | exact (theta_in_range_not_nan td' H)].
Qed.

Lemma euler_theta_stays_in_range_witness :
  theta_in_range (Build 0.1 0.5 5 10) = true
  /\ run_setters [Set_n_time_steps 3; Set_delta_t nan; Set_euler_theta 1]
       (Build 0.1 0.5 5 10)
     = Returned (Build nan 1 5 3)
  /\ theta_in_range (Build nan 1 5 3) = true
  /\ get_euler_theta (Build nan 1 5 3) <> nan.
Proof.
  split; [reflexivity | split; [reflexivity |]].
  apply (@euler_theta_stays_in_range
           [Set_n_time_steps 3; Set_delta_t nan; Set_euler_theta 1]
           (Build 0.1 0.5 5 10) (Build nan 1 5 3));
    reflexivity.
Defined.

(** X6: the states an object can be brought to from construction by
    setter calls are exactly those with [0 <= euler_theta <= 1]: the
    time step, the step count and [delta_t] can take any values, in any
    relation to one another. *)
Theorem reachable_iff_theta_in_range (td : TemporalDiscretization) :
  (exists cs : list setter_call,
      run_setters cs TemporalDiscretization_ctor = Returned td)
  <-> theta_in_range td = true.
Proof.
  split.
  - intros [cs Hrun].
    exact (theta_in_range_after_run cs TemporalDiscretization_ctor
             eq_refl Hrun).
  - intros Hin. exists (setters_reaching td).
    destruct td as [d th cur n].
    cbv beta iota delta [theta_in_range get_euler_theta _euler_theta] in Hin.
    cbv beta iota delta
      [setters_reaching run_setters call_setter set_delta_t set_euler_theta
       set_time_step set_n_time_steps libmesh_assert get_delta_t
       get_euler_theta get_time_step get_n_time_steps
       TemporalDiscretization_ctor
       _delta_t _euler_theta _current_time_step _n_time_steps].
    rewrite Hin.
    cbv beta iota delta
      [_delta_t _euler_theta _current_time_step _n_time_steps].
    rewrite N.leb_refl. reflexivity.
Qed.

(** X7: right after an accepted [set_time_step], at the end of any
    sequence of setter calls on a fresh object, the whole invariant
    [current_time_step <= n_time_steps] and [0 <= euler_theta <= 1] holds,
    also when an earlier [set_n_time_steps] had broken it. *)
Theorem invariant_after_accepted_set_time_step
  (cs : list setter_call) (k : unsigned_int) (td' : TemporalDiscretization) :
  run_setters (cs ++ [Set_time_step k]) TemporalDiscretization_ctor
  = Returned td' ->
  invariant td' = true.
Proof.
  rewrite run_setters_app.
  destruct (run_setters cs TemporalDiscretization_ctor) as [td |] eqn:Hcs;
    [| discriminate].
  assert (Hin : theta_in_range td = true)
    by exact (theta_in_range_after_run cs TemporalDiscretization_ctor
                eq_refl Hcs).
  simpl. destruct (set_time_step k td) as [td1 |] eqn:Hk; [| discriminate].
  intros H. injection H as H. subst td1.
  apply libmesh_assert_returned in Hk. destruct Hk as [Hb Hr].
  injection Hr as <-. apply invariant_spelled_out.
  apply N.leb_le in Hb. apply andb_true_iff in Hin.
  split; [exact Hb | exact Hin].
Qed.

Lemma invariant_after_accepted_set_time_step_witness :
  run_setters
    ([Set_n_time_steps 10; Set_time_step 5; Set_n_time_steps 3]
     ++ [Set_time_step 2])
    TemporalDiscretization_ctor
  = Returned (Build 0 0 2 3)
  /\ invariant (Build 0 0 2 3) = true.
Proof.
  split; [reflexivity |].
  apply (@invariant_after_accepted_set_time_step
           [Set_n_time_steps 10; Set_time_step 5; Set_n_time_steps 3]
           2%N (Build 0 0 2 3)).
  reflexivity.
Defined.
